(** * prime_cache.c: the gem5 cache-priming workload, embedded and verified

    The program of [configs/vulcan/prime_cache.c] allocates one buffer the
    size of the cache, writes every byte of it (phase 0), increments the
    first byte of every cache line (phase 1, "prime"), sums those bytes
    into a checksum (phase 2, "verify"), stores the truncated checksum into
    a volatile sink, frees the buffer and returns.

    The embedding is shallow: C statements become computations in a small
    state-and-fault monad over a machine that holds the one heap block, the
    volatile [sink] and the trace of observable events.  Undefined behaviour
    of C (an access outside the block, a signed overflow, a null or dangling
    pointer) is a fault. *)

From Stdlib Require Import FunInd Recdef.
From stdpp Require Import base numbers list list_numbers strings.

Local Open Scope Z_scope.

(** ** Machine integers *)

Definition INT_MAX : Z := 2 ^ 31 - 1.
Definition INT_MIN : Z := - 2 ^ 31.

(** [(uint8_t) z] and [(uint64_t) z]: conversion to an unsigned type wraps. *)
Definition to_uint8 (z : Z) : Z := z mod 2 ^ 8.
Definition to_uint64 (z : Z) : Z := z mod 2 ^ 64.

(** ** Observable events, faults, machine state *)

Inductive event : Type :=
| Alloc (alignment size : Z) (ok : bool)   (* aligned_alloc returned      *)
| Stderr (msg : string)                     (* a line written to stderr    *)
| Load (off v : Z)                          (* v read from buf[off]        *)
| Store (off v : Z)                         (* v written to buf[off]       *)
| SinkStore (v : Z)                         (* volatile write to sink      *)
| ResetStats                                (* m5 magic instruction 0x40   *)
| DumpStats                                 (* m5 magic instruction 0x41   *)
| Free.                                     (* free of the block           *)

Inductive fault : Type :=
| OutOfBounds (off : Z)
| SignedOverflow (z : Z)
| BadPointer
| IllegalInstruction.

(** A pointer of the program is either null or the one block it allocates. *)
Inductive ptr : Type := NULL | Block.

Record machine : Type := Machine {
  heap : option (list Z);   (* contents of the live block, if any *)
  sink : Z;                 (* volatile uint8_t sink              *)
  trace : list event        (* events so far, oldest first        *)
}.

Definition emit (e : event) (m : machine) : machine :=
  {| heap := heap m; sink := sink m; trace := trace m ++ [e] |}.

Definition set_heap (h : option (list Z)) (m : machine) : machine :=
  {| heap := h; sink := sink m; trace := trace m |}.

Definition set_sink (v : Z) (m : machine) : machine :=
  {| heap := heap m; sink := v; trace := trace m |}.

(** Static storage is zero-initialised; nothing is allocated at start. *)
Definition boot : machine := {| heap := None; sink := 0; trace := [] |}.

(** ** The monad *)

Definition M (A : Type) : Type := machine -> fault + (A * machine).

#[global] Instance M_ret : MRet M := fun A x m => inr (x, m).
#[global] Instance M_bind : MBind M := fun A B f c m =>
  match c m with
  | inl e => inl e
  | inr (x, m') => f x m'
  end.

Definition raise {A : Type} (e : fault) : M A := fun _ => inl e.

(** ** Primitive operations *)

(** The allocator is the environment: asked for [size] bytes at
    [alignment], it refuses or hands out a block whose contents are
    indeterminate (any bytes). *)
Definition allocator : Type := Z -> Z -> option (nat -> Z).

Definition fresh_block (contents : nat -> Z) (size : Z) : list Z :=
  map (fun k => to_uint8 (contents k)) (seq 0 (Z.to_nat size)).

Definition aligned_alloc (os : allocator) (alignment size : Z) : M ptr :=
  fun m =>
    match os alignment size with
    | None => inr (NULL, emit (Alloc alignment size false) m)
    | Some contents =>
        inr (Block, emit (Alloc alignment size true)
                      (set_heap (Some (fresh_block contents size)) m))
    end.

(** [p[off]] as an rvalue. *)
Definition load (p : ptr) (off : Z) : M Z :=
  fun m =>
    match p, heap m with
    | Block, Some b =>
        if decide (0 <= off) then
          match b !! Z.to_nat off with
          | Some v => inr (v, emit (Load off v) m)
          | None => inl (OutOfBounds off)
          end
        else inl (OutOfBounds off)
    | _, _ => inl BadPointer
    end.

(** [p[off] = v]. *)
Definition store (p : ptr) (off v : Z) : M unit :=
  fun m =>
    match p, heap m with
    | Block, Some b =>
        if decide (0 <= off < Z.of_nat (length b)) then
          inr (tt, emit (Store off v)
                     (set_heap (Some (<[Z.to_nat off := v]> b)) m))
        else inl (OutOfBounds off)
    | _, _ => inl BadPointer
    end.

(** [sink = v] on the volatile global. *)
Definition sink_store (v : Z) : M unit :=
  fun m => inr (tt, emit (SinkStore v) (set_sink v m)).

(** [free(p)]; freeing a null pointer does nothing. *)
Definition free (p : ptr) : M unit :=
  fun m =>
    match p, heap m with
    | NULL, _ => inr (tt, m)
    | Block, Some _ => inr (tt, emit Free (set_heap None m))
    | Block, None => inl BadPointer
    end.

Definition fprintf_stderr (msg : string) : M unit :=
  fun m => inr (tt, emit (Stderr msg) m).

(** Signed [int] multiplication: overflow is undefined behaviour. *)
Definition int_mul (a b : Z) : M Z :=
  let r := a * b in
  if decide (INT_MIN <= r <= INT_MAX) then mret r else raise (SignedOverflow r).

(** ** The m5 pseudo-instructions

    Each function is one inline-assembly statement that plants an
    instruction word the target's instruction set does not define; the
    preprocessor picks the body by target, and on an unknown target both
    bodies are empty.  What such a word does is not the program's to say
    but the host's that executes it: a simulator that decodes it, or a
    processor that raises an undefined-instruction trap.  The host is
    therefore a parameter.  (The register moves that precede the word on
    the two Arm targets touch registers only, which the machine here does
    not have.) *)

Inductive isa : Type := X86 | AArch64 | Arm | UnknownIsa.

Inductive opcode : Type :=
| X86Magic (func : Z)     (* .byte 0x0f, 0x04; .word func *)
| A64Inst (word : Z)      (* .inst word                   *)
| A32Word (word : Z).     (* .word word                   *)

Definition host : Type := opcode -> M unit.

Definition m5_reset_stats (target : isa) (h : host) : M unit :=
  match target with
  | X86 => h (X86Magic 0x40)
  | AArch64 => h (A64Inst 0xff000110)
  | Arm => h (A32Word 0xee900110)
  | UnknownIsa => mret tt
  end.

Definition m5_dump_stats (target : isa) (h : host) : M unit :=
  match target with
  | X86 => h (X86Magic 0x41)
  | AArch64 => h (A64Inst 0xff000111)
  | Arm => h (A32Word 0xee900111)
  | UnknownIsa => mret tt
  end.

(** Two hosts.  A processor that knows none of these words traps on each.
    The simulator as the comments of the source take it to be reads the
    six words of the two functions as the two signals, and traps on any
    other. *)
Definition trapping_cpu : host := fun _ _ => inl IllegalInstruction.

Definition simulator_as_documented : host := fun op m =>
  match op with
  | X86Magic 0x40 | A64Inst 0xff000110 | A32Word 0xee900110 =>
      inr (tt, emit ResetStats m)
  | X86Magic 0x41 | A64Inst 0xff000111 | A32Word 0xee900111 =>
      inr (tt, emit DumpStats m)
  | _ => inl IllegalInstruction
  end.

(** ** The [for] loop

    [for (int i = lo; i < bound; i++) acc = body(i, acc);] taken up at
    counter value [i], where [acc] stands for the locals the body updates
    and the machine is threaded through the iterations.  The increment
    cannot overflow: it is only evaluated when [i < bound], and [bound] is
    an [int]. *)

Function for_loop (A : Type) (bound : Z) (body : Z -> A -> M A) (i : Z)
  (acc : A) (m : machine) {measure (fun i => Z.to_nat (bound - i)) i}
  : fault + (A * machine) :=
  if i <? bound then
    match body i acc m with
    | inl e => inl e
    | inr (acc', m') => for_loop A bound body (i + 1) acc' m'
    end
  else inr (acc, m).
Proof. intros A bound body i acc m Hlt; intros. apply Z.ltb_lt in Hlt. lia. Defined.

Arguments for_loop {A} bound body i acc m.

(** ** The workload

    The cache geometry is the configuration surface of the file (two
    macros), so the phases are written over it; [main] below instantiates
    them at the values the macros have in the source. *)

Section Workload.
Variables cache_size_bytes cache_line_bytes : Z.

(** [#define NUM_CACHE_LINES (CACHE_SIZE_BYTES / CACHE_LINE_BYTES)]:
    C division truncates. *)
Definition num_cache_lines : Z := cache_size_bytes ÷ cache_line_bytes.

(** Phase 0: [for (int i = 0; i < CACHE_SIZE_BYTES; i++) buf[i] = (uint8_t)i;] *)
Definition cold_init (buf : ptr) : M unit :=
  for_loop cache_size_bytes (fun i _ => store buf i (to_uint8 i)) 0 tt.

(** Phase 1: [int offset = line * CACHE_LINE_BYTES; buf[offset] += 1;]
    for every line.  The compound assignment reads the byte, adds one in
    [int] and converts the sum back to [uint8_t]. *)
Definition prime_body (buf : ptr) (line : Z) (_ : unit) : M unit :=
  offset ← int_mul line cache_line_bytes;
  v ← load buf offset;
  store buf offset (to_uint8 (v + 1)).

Definition prime (buf : ptr) : M unit :=
  for_loop num_cache_lines (prime_body buf) 0 tt.

(** Phase 2: [checksum += buf[line * CACHE_LINE_BYTES];] for every line,
    [checksum] a [uint64_t] that starts at zero. *)
Definition verify_body (buf : ptr) (line : Z) (checksum : Z) : M Z :=
  offset ← int_mul line cache_line_bytes;
  v ← load buf offset;
  mret (to_uint64 (checksum + v)).

Definition verify (buf : ptr) : M Z :=
  for_loop num_cache_lines (verify_body buf) 0 0.

Definition alloc_failed_msg : string :=
  "aligned_alloc failed" +:+ String (Ascii.ascii_of_nat 10) EmptyString.

(** [main] with the geometry left open; the result is the exit status.
    Where the source announces the region of interest ("Begin Region of
    Interest" before phase 1, "End Region of Interest" after the sink
    store) it has banner comments only: no statement stands there, and
    [m5_reset_stats] and [m5_dump_stats] are called nowhere in the file. *)
Definition main_at (os : allocator) : M Z :=
  buf ← aligned_alloc os cache_size_bytes cache_size_bytes;
  match buf with
  | NULL =>
      fprintf_stderr alloc_failed_msg;;
      mret 1
  | Block =>
      cold_init buf;;
      prime buf;;
      checksum ← verify buf;
      sink_store (to_uint8 checksum);;
      free buf;;
      mret 0
  end.
End Workload.

(** The geometry compiled into the program. *)
Definition CACHE_SIZE_BYTES : Z := 16 * 1024.
Definition CACHE_LINE_BYTES : Z := 64.
Definition NUM_CACHE_LINES : Z :=
  num_cache_lines CACHE_SIZE_BYTES CACHE_LINE_BYTES.

Definition main (os : allocator) : M Z :=
  main_at CACHE_SIZE_BYTES CACHE_LINE_BYTES os.

(** Running a computation from the initial machine. *)
Definition run {A : Type} (c : M A) : fault + (A * machine) := c boot.

(** Two allocators to run the program on: one that always hands out a
    zero-filled block, one that has nothing left. *)
Definition generous : allocator := fun _ _ => Some (fun _ => 0).
Definition exhausted : allocator := fun _ _ => None.

(** * Specification vocabulary

    What the phases are expected to do to the block and to the trace,
    written as plain list functions. *)

(** The byte at [off], read directly from a block. *)
Definition byte_at (b : list Z) (off : Z) : Z := default 0 (b !! Z.to_nat off).

(** Phase 0 over the first [n] bytes: contents and events. *)
Definition cold_image (n : Z) : list Z := to_uint8 <$> seqZ 0 n.
Definition cold_events (n : Z) : list event :=
  (fun i => Store i (to_uint8 i)) <$> seqZ 0 n.

(** Offsets of the first [n] line starts at stride [L]. *)
Definition line_offsets (L n : Z) : list Z := (fun line => line * L) <$> seqZ 0 n.

(** Phase 1 over the first [n] lines of block [b]. *)
Definition is_line_start (L n : Z) (k : nat) : Prop :=
  Z.of_nat k mod L = 0 /\ Z.of_nat k < n * L.

#[global] Instance is_line_start_dec L n k : Decision (is_line_start L n k).
Proof. unfold is_line_start. apply _. Defined.

Definition bumped (L n : Z) (b : list Z) : list Z :=
  imap (fun k v => if decide (is_line_start L n k) then to_uint8 (v + 1) else v) b.

Definition rmw_events (b : list Z) (off : Z) : list event :=
  [Load off (byte_at b off); Store off (to_uint8 (byte_at b off + 1))].

Definition prime_events (L n : Z) (b : list Z) : list event :=
  flat_map (rmw_events b) (line_offsets L n).

(** Phase 2 over the first [n] lines of block [b]. *)
Definition verify_events (L n : Z) (b : list Z) : list event :=
  (fun off => Load off (byte_at b off)) <$> line_offsets L n.

Definition checksum_of (L n : Z) (b : list Z) : Z :=
  foldl (fun acc off => to_uint64 (acc + byte_at b off)) 0 (line_offsets L n).

(** The buffer offset an event accesses, if it is a buffer access. *)
Definition access_offset (e : event) : option Z :=
  match e with
  | Load off _ | Store off _ => Some off
  | _ => None
  end.

(** The block as the measured region leaves it, the checksum the verify
    pass computes from it, and the events of a successful run. *)
Definition roi_block (S L : Z) : list Z :=
  bumped L (num_cache_lines S L) (cold_image S).

Definition final_checksum (S L : Z) : Z :=
  checksum_of L (num_cache_lines S L) (roi_block S L).

Definition main_trace (S L : Z) : list event :=
  [Alloc S S true] ++ cold_events S
    ++ prime_events L (num_cache_lines S L) (cold_image S)
    ++ verify_events L (num_cache_lines S L) (roi_block S L)
    ++ [SinkStore (to_uint8 (final_checksum S L)); Free].

(** The two signals of the statistics boundary. *)
Definition is_stats_signal (e : event) : Prop := e = ResetStats \/ e = DumpStats.

(** The machine [main] is in right after [generous] has granted the block. *)
Definition after_alloc : machine :=
  {| heap := Some (fresh_block (fun _ => 0) CACHE_SIZE_BYTES); sink := 0;
     trace := [Alloc CACHE_SIZE_BYTES CACHE_SIZE_BYTES true] |}.

(** The geometries the program can be compiled for: a positive line size
    and a cache size that is a non-negative [int]. *)
Definition geometry_ok (S L : Z) : Prop := 0 < L /\ 0 <= S <= INT_MAX.

(** ** Vocabulary for further properties *)

(** The offset and value of a store, and of a load. *)
Definition stored (e : event) : option (Z * Z) :=
  match e with
  | Store off v => Some (off, v)
  | _ => None
  end.

Definition loaded (e : event) : option (Z * Z) :=
  match e with
  | Load off v => Some (off, v)
  | _ => None
  end.

(** The values a [uint8_t] can hold, and blocks made of them. *)
Definition is_byte (v : Z) : bool := (0 <=? v) && (v <? 256).
Definition all_bytes (b : list Z) : bool := forallb is_byte b.

(** An allocator whose blocks come with leftover contents. *)
Definition scribbled : allocator := fun _ _ => Some (fun k => Z.of_nat k + 7).

(** A machine holding a 10-byte block: with 4-byte lines, two full lines
    and a partial one. *)
Definition ragged : machine :=
  {| heap := Some (fresh_block (fun _ => 0) 10); sink := 0;
     trace := [Alloc 10 10 true] |}.

(** A machine whose block of the compiled size holds 255 everywhere. *)
Definition brimful : machine :=
  {| heap := Some (fresh_block (fun _ => 255) CACHE_SIZE_BYTES); sink := 0;
     trace := [Alloc CACHE_SIZE_BYTES CACHE_SIZE_BYTES true] |}.

(** * Verification *)

(** ** The loop rule *)

(** The loop read as C reads it: test, body, increment, again. *)
Lemma for_loop_unfold {A : Type} bound (body : Z -> A -> M A) i acc m :
  for_loop bound body i acc m =
  if decide (i < bound)
  then (body i acc ≫= for_loop bound body (i + 1)) m
  else inr (acc, m).
Proof.
  rewrite for_loop_equation. unfold mbind, M_bind.
  destruct (Z.ltb_spec i bound); case_decide; try lia; reflexivity.
Qed.

(** Total correctness of a loop from an invariant its body re-establishes. *)
Lemma for_loop_inv {A : Type} (I : Z -> A -> machine -> Prop) bound body :
  (forall i acc m, i < bound -> I i acc m ->
     exists acc' m', body i acc m = inr (acc', m') /\ I (i + 1) acc' m') ->
  forall i acc m, i <= bound -> I i acc m ->
    exists acc' m', for_loop bound body i acc m = inr (acc', m') /\ I bound acc' m'.
Proof.
  intros Hbody i acc m.
  functional induction (for_loop bound body i acc m) as
    [i acc m Hlt e Hb | i acc m Hlt acc' m' Hb IH | i acc m Hge];
    intros Hle HI.
  - apply Z.ltb_lt in Hlt.
    destruct (Hbody i acc m Hlt HI) as (? & ? & Heq & _). congruence.
  - apply Z.ltb_lt in Hlt.
    destruct (Hbody i acc m Hlt HI) as (a1 & m1 & Heq & HI').
    rewrite Hb in Heq. simplify_eq. apply IH; [lia | assumption].
  - apply Z.ltb_ge in Hge. assert (i = bound) as -> by lia. eauto.
Qed.

(** ** Phase 0 *)

Lemma seqZ_snoc (i : Z) : 0 <= i -> seqZ 0 (i + 1) = seqZ 0 i ++ [i].
Proof.
  intros Hi. rewrite seqZ_app by lia. f_equal.
Qed.

Lemma cold_image_snoc i : 0 <= i -> cold_image (i + 1) = cold_image i ++ [to_uint8 i].
Proof.
  intros Hi. unfold cold_image. rewrite seqZ_snoc by lia.
  rewrite fmap_app. reflexivity.
Qed.

Lemma cold_events_snoc i :
  0 <= i -> cold_events (i + 1) = cold_events i ++ [Store i (to_uint8 i)].
Proof.
  intros Hi. unfold cold_events. rewrite seqZ_snoc by lia.
  rewrite fmap_app. reflexivity.
Qed.

Lemma length_cold_image n : length (cold_image n) = Z.to_nat n.
Proof. unfold cold_image. rewrite length_fmap. apply length_seqZ. Qed.

Lemma cold_image_lookup n (k : nat) :
  Z.of_nat k < n -> cold_image n !! k = Some (to_uint8 (Z.of_nat k)).
Proof.
  intros Hk. unfold cold_image. rewrite list_lookup_fmap.
  rewrite lookup_seqZ_lt by lia. simpl. f_equal.
Qed.

Lemma store_run b off v m :
  heap m = Some b -> 0 <= off < Z.of_nat (length b) ->
  store Block off v m =
  inr (tt, {| heap := Some (<[Z.to_nat off := v]> b); sink := sink m;
              trace := trace m ++ [Store off v] |}).
Proof.
  intros Hb Hoff. unfold store. rewrite Hb.
  case_decide; [reflexivity | lia].
Qed.

Lemma load_run b off m :
  heap m = Some b -> 0 <= off < Z.of_nat (length b) ->
  load Block off m =
  inr (byte_at b off, {| heap := heap m; sink := sink m;
                          trace := trace m ++ [Load off (byte_at b off)] |}).
Proof.
  intros Hb Hoff. unfold load, byte_at. rewrite Hb.
  case_decide; [| lia].
  destruct (lookup_lt_is_Some_2 b (Z.to_nat off)) as [v Hv]; [lia |].
  rewrite Hv. unfold emit. simpl. rewrite Hb. reflexivity.
Qed.

Lemma cold_init_run S b m :
  0 <= S -> heap m = Some b -> length b = Z.to_nat S ->
  cold_init S Block m =
  inr (tt, {| heap := Some (cold_image S); sink := sink m;
              trace := trace m ++ cold_events S |}).
Proof.
  intros HS Hb Hlen. unfold cold_init.
  pose (I := fun (i : Z) (_ : unit) (m' : machine) =>
    0 <= i <= S /\
    heap m' = Some (cold_image i ++ drop (Z.to_nat i) b) /\
    sink m' = sink m /\ trace m' = trace m ++ cold_events i).
  destruct (for_loop_inv I S (fun i _ => store Block i (to_uint8 i)))
    with (i := 0) (acc := tt) (m := m) as ([] & m' & Hrun & HI).
  - intros i [] m1 Hlt (Hi & Hh & Hs & Ht).
    eexists tt, _. split.
    + apply (store_run _ _ _ _ Hh).
      rewrite length_app, length_cold_image, length_drop. lia.
    + unfold I; simpl. split; [lia |]. split; [| split].
      * f_equal. rewrite cold_image_snoc by lia.
        rewrite insert_app_r_alt by (rewrite length_cold_image; lia).
        rewrite length_cold_image, Nat.sub_diag.
        destruct (lookup_lt_is_Some_2 b (Z.to_nat i)) as [y Hy]; [lia |].
        rewrite (drop_S _ _ _ Hy). simpl. rewrite <- app_assoc. simpl.
        replace (Z.to_nat (i + 1)) with (Datatypes.S (Z.to_nat i)) by lia.
        reflexivity.
      * assumption.
      * rewrite Ht, cold_events_snoc by lia. rewrite app_assoc. reflexivity.
  - lia.
  - unfold I. split; [lia |]. split; [| split].
    + change (cold_image 0) with (@nil Z). simpl. rewrite drop_0. exact Hb.
    + reflexivity.
    + change (cold_events 0) with (@nil event). rewrite app_nil_r. reflexivity.
  - rewrite Hrun. destruct HI as (_ & Hh & Hs & Ht). destruct m'; simpl in *.
    rewrite drop_ge, app_nil_r in Hh by lia. congruence.
Qed.

(** ** Sequencing *)

Lemma bind_run {A B : Type} (c : M A) (f : A -> M B) m x m' :
  c m = inr (x, m') -> (c ≫= f) m = f x m'.
Proof. intros Hc. unfold mbind, M_bind. rewrite Hc. reflexivity. Qed.

Lemma int_mul_run a b m :
  INT_MIN <= a * b <= INT_MAX -> int_mul a b m = inr (a * b, m).
Proof. intros Hr. unfold int_mul. case_decide; [reflexivity | lia]. Qed.

(** ** Geometry *)

Lemma lines_fit S L :
  geometry_ok S L ->
  0 <= num_cache_lines S L /\ num_cache_lines S L * L <= S.
Proof.
  intros [HL [HS _]]. unfold num_cache_lines.
  rewrite Z.quot_div_nonneg by lia. split.
  - apply Z.div_pos; lia.
  - rewrite Z.mul_comm. apply Z.mul_div_le. lia.
Qed.

Lemma line_offsets_snoc L i :
  0 <= i -> line_offsets L (i + 1) = line_offsets L i ++ [i * L].
Proof.
  intros Hi. unfold line_offsets. rewrite seqZ_snoc by lia.
  rewrite fmap_app. reflexivity.
Qed.

Lemma is_line_start_succ L i k :
  0 < L -> 0 <= i ->
  is_line_start L (i + 1) k <-> is_line_start L i k \/ Z.of_nat k = i * L.
Proof.
  intros HL Hi. unfold is_line_start. split.
  - intros [Hmod Hlt].
    apply Z.mod_divide in Hmod; [| lia]. destruct Hmod as [q Hq].
    rewrite Hq in Hlt |- *. destruct (decide (q < i)) as [Hqi | Hqi].
    + left. split; [apply Z.mod_mul; lia |].
      apply Z.mul_lt_mono_pos_r; lia.
    + right. apply Z.mul_lt_mono_pos_r in Hlt; [| lia].
      f_equal. lia.
  - intros [[Hmod Hlt] | Heq].
    + split; [assumption | nia].
    + rewrite Heq. split; [apply Z.mod_mul; lia | nia].
Qed.

(** ** Phase 1 *)

Lemma length_bumped L n b : length (bumped L n b) = length b.
Proof. apply length_imap. Qed.

Lemma bumped_lookup L n b (k : nat) :
  bumped L n b !! k =
  (fun v => if decide (is_line_start L n k) then to_uint8 (v + 1) else v)
    <$> b !! k.
Proof. apply list_lookup_imap. Qed.

Lemma bumped_0 L b : bumped L 0 b = b.
Proof.
  apply list_eq. intros k. rewrite bumped_lookup.
  destruct (b !! k) as [v |]; [| reflexivity]. simpl.
  case_decide as Hk; [| reflexivity].
  destruct Hk as [_ Hk]. lia.
Qed.

(** A line that is still ahead of the pass holds what the block held. *)
Lemma byte_at_bumped_ahead L i b off :
  0 <= off -> i * L <= off -> byte_at (bumped L i b) off = byte_at b off.
Proof.
  intros H0 Hoff. unfold byte_at. rewrite bumped_lookup.
  destruct (b !! Z.to_nat off) as [v |]; [| reflexivity]. simpl.
  case_decide as Hk; [| reflexivity].
  destruct Hk as [_ Hk]. lia.
Qed.

Lemma bumped_step L i b :
  0 < L -> 0 <= i -> i * L < Z.of_nat (length b) ->
  <[Z.to_nat (i * L) := to_uint8 (byte_at b (i * L) + 1)]> (bumped L i b) =
  bumped L (i + 1) b.
Proof.
  intros HL Hi Hlen. apply list_eq. intros k.
  rewrite list_lookup_insert, !bumped_lookup, length_bumped.
  pose proof (is_line_start_succ L i k HL Hi) as Hsucc.
  case_decide as Hk.
  - destruct Hk as [Hk _]. subst k. unfold byte_at.
    destruct (b !! Z.to_nat (i * L)) as [v |] eqn:Hv.
    + simpl. rewrite decide_True; [reflexivity |]. apply Hsucc. right. nia.
    + apply lookup_ge_None in Hv. lia.
  - destruct (b !! k) as [v |] eqn:Hv; [| reflexivity]. simpl. f_equal.
    apply lookup_lt_Some in Hv.
    assert (Z.of_nat k <> i * L) by (intros Heq; apply Hk; split; nia).
    repeat case_decide; try reflexivity; tauto.
Qed.

Lemma prime_events_snoc L i b :
  0 <= i ->
  prime_events L (i + 1) b = prime_events L i b ++ rmw_events b (i * L).
Proof.
  intros Hi. unfold prime_events. rewrite line_offsets_snoc by lia.
  rewrite flat_map_app. reflexivity.
Qed.

Lemma prime_body_run L i b m :
  0 <= i * L <= INT_MAX -> i * L < Z.of_nat (length b) ->
  heap m = Some b ->
  prime_body L Block i tt m =
  inr (tt, {| heap := Some (<[Z.to_nat (i * L) := to_uint8 (byte_at b (i * L) + 1)]> b);
              sink := sink m;
              trace := trace m ++ rmw_events b (i * L) |}).
Proof.
  intros Hr Hlen Hb. unfold prime_body.
  rewrite (bind_run _ _ _ _ _ (int_mul_run i L m ltac:(unfold INT_MIN, INT_MAX in *; lia))).
  rewrite (bind_run _ _ _ _ _ (load_run b (i * L) m Hb ltac:(lia))).
  rewrite (store_run b) by (simpl; auto with lia).
  simpl. rewrite <- app_assoc. reflexivity.
Qed.

Lemma prime_run S L b m :
  geometry_ok S L -> heap m = Some b -> length b = Z.to_nat S ->
  prime S L Block m =
  inr (tt, {| heap := Some (bumped L (num_cache_lines S L) b); sink := sink m;
              trace := trace m ++ prime_events L (num_cache_lines S L) b |}).
Proof.
  intros Hg Hb Hlen. destruct (lines_fit S L Hg) as [Hn HnL].
  destruct Hg as [HL [HS HSmax]]. unfold prime.
  set (n := num_cache_lines S L) in *. clearbody n.
  pose (I := fun (i : Z) (_ : unit) (m' : machine) =>
    0 <= i <= n /\ heap m' = Some (bumped L i b) /\
    sink m' = sink m /\ trace m' = trace m ++ prime_events L i b).
  destruct (for_loop_inv I n (prime_body L Block))
    with (i := 0) (acc := tt) (m := m) as ([] & m' & Hrun & HI).
  - intros i [] m1 Hlt (Hi & Hh & Hs & Ht).
    assert (i * L + L <= S) by nia.
    eexists tt, _. split.
    + apply (prime_body_run L i (bumped L i b));
        [nia | rewrite length_bumped; lia | exact Hh].
    + unfold I; simpl. split; [lia |]. split; [| split].
      * rewrite byte_at_bumped_ahead by lia.
        rewrite bumped_step by lia. reflexivity.
      * assumption.
      * rewrite Ht, prime_events_snoc by lia. rewrite <- app_assoc.
        unfold rmw_events. rewrite byte_at_bumped_ahead by lia. reflexivity.
  - lia.
  - unfold I. split; [lia |]. split; [| split].
    + rewrite bumped_0. exact Hb.
    + reflexivity.
    + change (prime_events L 0 b) with (@nil event). rewrite app_nil_r. reflexivity.
  - rewrite Hrun. destruct HI as (_ & Hh & Hs & Ht). destruct m'; simpl in *.
    congruence.
Qed.

(** ** Phase 2 *)

Lemma verify_events_snoc L i b :
  0 <= i ->
  verify_events L (i + 1) b =
  verify_events L i b ++ [Load (i * L) (byte_at b (i * L))].
Proof.
  intros Hi. unfold verify_events. rewrite line_offsets_snoc by lia.
  rewrite fmap_app. reflexivity.
Qed.

Lemma checksum_of_snoc L i b :
  0 <= i ->
  checksum_of L (i + 1) b = to_uint64 (checksum_of L i b + byte_at b (i * L)).
Proof.
  intros Hi. unfold checksum_of. rewrite line_offsets_snoc by lia.
  rewrite foldl_app. reflexivity.
Qed.

Lemma verify_body_run L i b acc m :
  0 <= i * L <= INT_MAX -> i * L < Z.of_nat (length b) ->
  heap m = Some b ->
  verify_body L Block i acc m =
  inr (to_uint64 (acc + byte_at b (i * L)),
       {| heap := heap m; sink := sink m;
          trace := trace m ++ [Load (i * L) (byte_at b (i * L))] |}).
Proof.
  intros Hr Hlen Hb. unfold verify_body.
  rewrite (bind_run _ _ _ _ _ (int_mul_run i L m ltac:(unfold INT_MIN, INT_MAX in *; lia))).
  rewrite (bind_run _ _ _ _ _ (load_run b (i * L) m Hb ltac:(lia))).
  reflexivity.
Qed.

Lemma verify_run S L b m :
  geometry_ok S L -> heap m = Some b -> length b = Z.to_nat S ->
  verify S L Block m =
  inr (checksum_of L (num_cache_lines S L) b,
       {| heap := Some b; sink := sink m;
          trace := trace m ++ verify_events L (num_cache_lines S L) b |}).
Proof.
  intros Hg Hb Hlen. destruct (lines_fit S L Hg) as [Hn HnL].
  destruct Hg as [HL [HS HSmax]]. unfold verify.
  set (n := num_cache_lines S L) in *. clearbody n.
  pose (I := fun (i : Z) (acc : Z) (m' : machine) =>
    0 <= i <= n /\ acc = checksum_of L i b /\ heap m' = Some b /\
    sink m' = sink m /\ trace m' = trace m ++ verify_events L i b).
  destruct (for_loop_inv I n (verify_body L Block))
    with (i := 0) (acc := 0) (m := m) as (acc' & m' & Hrun & HI).
  - intros i acc m1 Hlt (Hi & Hacc & Hh & Hs & Ht).
    assert (i * L + L <= S) by nia.
    eexists _, _. split.
    + apply (verify_body_run L i b); [nia | lia | exact Hh].
    + unfold I; simpl. split; [lia |]. split; [| split; [| split]].
      * rewrite checksum_of_snoc by lia. congruence.
      * assumption.
      * assumption.
      * rewrite Ht, verify_events_snoc by lia. rewrite app_assoc. reflexivity.
  - lia.
  - unfold I. split; [lia |]. split; [| split; [| split]]; try done.
    change (verify_events L 0 b) with (@nil event). rewrite app_nil_r. reflexivity.
  - rewrite Hrun. destruct HI as (_ & Hacc & Hh & Hs & Ht). destruct m'; simpl in *.
    congruence.
Qed.

(** ** The whole program *)

Lemma length_fresh_block contents S : length (fresh_block contents S) = Z.to_nat S.
Proof. unfold fresh_block. rewrite length_map, length_seq. reflexivity. Qed.

Lemma main_at_granted S L os contents :
  geometry_ok S L -> os S S = Some contents ->
  run (main_at S L os) =
  inr (0, {| heap := None; sink := to_uint8 (final_checksum S L);
             trace := main_trace S L |}).
Proof.
  intros Hg Hos. pose proof Hg as [HL [HS HSmax]].
  unfold run, main_at, aligned_alloc.
  unfold mbind at 1. unfold M_bind at 1. rewrite Hos.
  erewrite bind_run;
    [| apply (cold_init_run S (fresh_block contents S));
       [lia | reflexivity | apply length_fresh_block]].
  erewrite bind_run;
    [| apply (prime_run S L (cold_image S));
       [exact Hg | reflexivity | apply length_cold_image]].
  erewrite bind_run;
    [| apply (verify_run S L (roi_block S L));
       [exact Hg | reflexivity |
        unfold roi_block; rewrite length_bumped; apply length_cold_image]].
  unfold main_trace, final_checksum.
  unfold mbind, M_bind, sink_store, free, mret, M_ret, emit, set_sink, set_heap.
  simpl. rewrite <- !app_assoc. reflexivity.
Qed.

Lemma main_at_refused S L os :
  os S S = None ->
  run (main_at S L os) =
  inr (1, {| heap := None; sink := 0;
             trace := [Alloc S S false; Stderr alloc_failed_msg] |}).
Proof.
  intros Hos. unfold run, main_at, aligned_alloc.
  unfold mbind at 1. unfold M_bind at 1. rewrite Hos. reflexivity.
Qed.

Lemma compiled_geometry_ok : geometry_ok CACHE_SIZE_BYTES CACHE_LINE_BYTES.
Proof. unfold geometry_ok, CACHE_SIZE_BYTES, CACHE_LINE_BYTES, INT_MAX. lia. Qed.

(** ** What the block holds after phases 0 and 1 *)

Lemma byte_at_cold_image S k :
  0 <= k < S -> byte_at (cold_image S) k = to_uint8 k.
Proof.
  intros Hk. unfold byte_at. rewrite cold_image_lookup by lia.
  simpl. f_equal. lia.
Qed.

Lemma byte_at_bumped L n b k :
  0 <= k < Z.of_nat (length b) ->
  byte_at (bumped L n b) k =
  if decide (k mod L = 0 /\ k < n * L) then to_uint8 (byte_at b k + 1)
  else byte_at b k.
Proof.
  intros Hk. unfold byte_at. rewrite bumped_lookup.
  destruct (lookup_lt_is_Some_2 b (Z.to_nat k)) as [v Hv]; [lia |].
  rewrite Hv. simpl.
  assert (is_line_start L n (Z.to_nat k) <-> k mod L = 0 /\ k < n * L) as Hiff
    by (unfold is_line_start; rewrite (Z2Nat.id k) by lia; reflexivity).
  repeat case_decide; try reflexivity; tauto.
Qed.

Lemma roi_block_line S L line :
  geometry_ok S L -> 0 <= line < num_cache_lines S L ->
  byte_at (roi_block S L) (line * L) = to_uint8 (to_uint8 (line * L) + 1).
Proof.
  intros Hg Hline. destruct (lines_fit S L Hg) as [Hn HnL].
  destruct Hg as [HL [HS _]]. unfold roi_block.
  set (n := num_cache_lines S L) in *. clearbody n.
  assert (0 <= line * L < S) by nia.
  rewrite (byte_at_bumped L n) by (rewrite length_cold_image; lia).
  rewrite byte_at_cold_image by lia.
  rewrite decide_True; [reflexivity |].
  split; [apply Z.mod_mul; lia | nia].
Qed.

Lemma line_offsets_lookup L n (j : nat) :
  Z.of_nat j < n -> line_offsets L n !! j = Some (Z.of_nat j * L).
Proof.
  intros Hj. unfold line_offsets. rewrite list_lookup_fmap.
  rewrite lookup_seqZ_lt by lia. reflexivity.
Qed.

Lemma length_line_offsets L n : length (line_offsets L n) = Z.to_nat n.
Proof. unfold line_offsets. rewrite length_fmap. apply length_seqZ. Qed.

Lemma NoDup_line_offsets L n : 0 < L -> NoDup (line_offsets L n).
Proof.
  intros HL. unfold line_offsets. apply NoDup_fmap_2; [| apply NoDup_seqZ].
  intros x y Hxy. apply Z.mul_cancel_r in Hxy; lia.
Qed.

Lemma line_offsets_bound S L off :
  geometry_ok S L -> off ∈ line_offsets L (num_cache_lines S L) ->
  0 <= off < S.
Proof.
  intros Hg Hoff. destruct (lines_fit S L Hg) as [Hn HnL].
  destruct Hg as [HL [HS _]].
  set (n := num_cache_lines S L) in *. clearbody n.
  unfold line_offsets in Hoff. apply list_elem_of_fmap in Hoff.
  destruct Hoff as (line & -> & Hline). apply elem_of_seqZ in Hline. nia.
Qed.

Lemma roi_bytes S L :
  geometry_ok S L ->
  byte_at (roi_block S L) <$> line_offsets L (num_cache_lines S L) =
  (fun line => to_uint8 (to_uint8 (line * L) + 1))
    <$> seqZ 0 (num_cache_lines S L).
Proof.
  intros Hg. unfold line_offsets. rewrite <- list_fmap_compose.
  apply list_fmap_ext. intros j line Hline. simpl.
  apply list_elem_of_lookup_2, elem_of_seqZ in Hline.
  apply roi_block_line; [assumption | lia].
Qed.

Lemma roi_verify_events S L :
  geometry_ok S L ->
  verify_events L (num_cache_lines S L) (roi_block S L) =
  (fun line => Load (line * L) (to_uint8 (to_uint8 (line * L) + 1)))
    <$> seqZ 0 (num_cache_lines S L).
Proof.
  intros Hg. unfold verify_events, line_offsets. rewrite <- list_fmap_compose.
  apply list_fmap_ext. intros j line Hline. simpl.
  apply list_elem_of_lookup_2, elem_of_seqZ in Hline.
  f_equal. apply roi_block_line; [assumption | lia].
Qed.

Lemma checksum_of_bytes L n b :
  checksum_of L n b =
  foldl (fun acc v => to_uint64 (acc + v)) 0 (byte_at b <$> line_offsets L n).
Proof.
  unfold checksum_of. generalize 0.
  induction (line_offsets L n) as [| off offs IH]; intros acc;
    csimpl; [reflexivity | apply IH].
Qed.

Lemma bumped_lookup_between L n b (k : nat) :
  Z.of_nat k mod L <> 0 -> bumped L n b !! k = b !! k.
Proof.
  intros Hmod. rewrite bumped_lookup.
  destruct (b !! k) as [v |]; [| reflexivity]. simpl.
  rewrite decide_False; [reflexivity |]. unfold is_line_start. tauto.
Qed.

(** Phases 0, 1 and 2 in sequence, as [main] runs them. *)
Lemma roi_run S L b m :
  geometry_ok S L -> heap m = Some b -> length b = Z.to_nat S ->
  (cold_init S Block;; prime S L Block;; verify S L Block) m =
  inr (final_checksum S L,
       {| heap := Some (roi_block S L); sink := sink m;
          trace := trace m ++ cold_events S
                     ++ prime_events L (num_cache_lines S L) (cold_image S)
                     ++ verify_events L (num_cache_lines S L) (roi_block S L) |}).
Proof.
  intros Hg Hb Hlen. pose proof Hg as [HL [HS HSmax]].
  erewrite bind_run; [| apply (cold_init_run S b); assumption].
  erewrite bind_run;
    [| apply (prime_run S L (cold_image S));
       [exact Hg | reflexivity | apply length_cold_image]].
  rewrite (verify_run S L (roi_block S L));
    [| exact Hg | reflexivity
     | unfold roi_block; rewrite length_bumped; apply length_cold_image].
  simpl. rewrite <- !app_assoc. reflexivity.
Qed.

(** The bytes the verify pass adds up for the compiled geometry. *)
Lemma compiled_roi_bytes :
  byte_at (roi_block CACHE_SIZE_BYTES CACHE_LINE_BYTES)
    <$> line_offsets CACHE_LINE_BYTES NUM_CACHE_LINES =
  (fun line => to_uint8 ((line * 64) mod 256 + 1)) <$> seqZ 0 256.
Proof. apply (roi_bytes _ _ compiled_geometry_ok). Qed.

Lemma compiled_final_checksum :
  final_checksum CACHE_SIZE_BYTES CACHE_LINE_BYTES = 24832.
Proof.
  unfold final_checksum. rewrite checksum_of_bytes.
  change (num_cache_lines CACHE_SIZE_BYTES CACHE_LINE_BYTES) with NUM_CACHE_LINES.
  rewrite compiled_roi_bytes. vm_compute. reflexivity.
Qed.

(** ** Events of a run *)

Lemma main_trace_no_signal S L :
  Forall (fun e => ~ is_stats_signal e) (main_trace S L).
Proof.
  unfold main_trace, is_stats_signal. repeat apply Forall_app_2.
  - repeat constructor. intros [|]; congruence.
  - unfold cold_events. apply Forall_fmap, Forall_true.
    intros i [|]; congruence.
  - unfold prime_events. apply Forall_flat_map, Forall_true.
    intros off. unfold rmw_events. repeat constructor; intros [|]; congruence.
  - unfold verify_events. apply Forall_fmap, Forall_true.
    intros off [|]; congruence.
  - repeat constructor; intros [|]; congruence.
Qed.

Lemma main_trace_in_bounds S L :
  geometry_ok S L ->
  Forall (fun e => forall off, access_offset e = Some off -> 0 <= off < S)
    (main_trace S L).
Proof.
  intros Hg. unfold main_trace. repeat apply Forall_app_2.
  - constructor; [intros off; simpl; congruence | constructor].
  - unfold cold_events. apply Forall_fmap, Forall_forall.
    intros i Hi off [= <-]. apply elem_of_seqZ in Hi. lia.
  - unfold prime_events. apply Forall_flat_map, Forall_forall.
    intros o Ho. apply (line_offsets_bound S L o Hg) in Ho.
    unfold rmw_events.
    repeat (constructor; [intros off [= <-]; exact Ho |]). constructor.
  - unfold verify_events. apply Forall_fmap, Forall_forall.
    intros o Ho off [= <-]. apply (line_offsets_bound S L o Hg Ho).
  - repeat (constructor; [intros off; simpl; congruence |]). constructor.
Qed.

(** On a recognised target the pseudo-instructions hand their word to the
    host: the simulator of the comments turns it into the signal, a
    processor that does not know it traps.  On an unknown target the
    functions do nothing, whatever the host. *)
Lemma m5_ops_visible :
  m5_reset_stats X86 simulator_as_documented boot =
    inr (tt, emit ResetStats boot) /\
  m5_dump_stats AArch64 simulator_as_documented boot =
    inr (tt, emit DumpStats boot) /\
  m5_reset_stats X86 trapping_cpu boot = inl IllegalInstruction /\
  forall h, m5_reset_stats UnknownIsa h boot = inr (tt, boot) /\
            m5_dump_stats UnknownIsa h boot = inr (tt, boot).
Proof. repeat split. Qed.

(** ** Lines and offsets *)

Lemma line_offsets_elem L n off :
  off ∈ line_offsets L n <-> exists line, off = line * L /\ 0 <= line < n.
Proof.
  unfold line_offsets. rewrite list_elem_of_fmap. split.
  - intros (line & -> & Hline). apply elem_of_seqZ in Hline.
    exists line. split; [reflexivity | lia].
  - intros (line & -> & Hline). exists line.
    split; [reflexivity |]. apply elem_of_seqZ. lia.
Qed.

Lemma lines_tail S L :
  geometry_ok S L -> S < num_cache_lines S L * L + L.
Proof.
  intros [HL [HS _]]. unfold num_cache_lines.
  rewrite Z.quot_div_nonneg by lia.
  pose proof (Z.div_mod S L ltac:(lia)) as Hdm.
  pose proof (Z.mod_pos_bound S L HL) as Hmod. lia.
Qed.

Lemma bumped_lookup_beyond L n b (k : nat) :
  n * L <= Z.of_nat k -> bumped L n b !! k = b !! k.
Proof.
  intros Hk. rewrite bumped_lookup.
  destruct (b !! k) as [v |]; [| reflexivity]. simpl.
  rewrite decide_False; [reflexivity |]. unfold is_line_start. lia.
Qed.

Lemma bumped_lookup_line L n b line :
  0 < L -> 0 <= line < n ->
  bumped L n b !! Z.to_nat (line * L) =
  (fun v => to_uint8 (v + 1)) <$> b !! Z.to_nat (line * L).
Proof.
  intros HL Hline. rewrite bumped_lookup.
  destruct (b !! Z.to_nat (line * L)) as [v |]; [| reflexivity]. simpl.
  rewrite decide_True; [reflexivity |]. unfold is_line_start.
  rewrite Z2Nat.id by nia. split; [apply Z.mod_mul; lia | nia].
Qed.

Lemma prime_events_offsets L n b :
  0 < L ->
  Forall (fun e => forall off, access_offset e = Some off -> 0 <= off < n * L)
    (prime_events L n b).
Proof.
  intros HL. unfold prime_events. apply Forall_flat_map, Forall_forall.
  intros o Ho. apply line_offsets_elem in Ho as (line & -> & Hline).
  unfold rmw_events.
  repeat (constructor; [intros off [= <-]; nia |]). constructor.
Qed.

Lemma verify_events_offsets L n b :
  0 < L ->
  Forall (fun e => forall off, access_offset e = Some off -> 0 <= off < n * L)
    (verify_events L n b).
Proof.
  intros HL. unfold verify_events. apply Forall_fmap, Forall_forall.
  intros o Ho off [= <-]. apply line_offsets_elem in Ho as (line & -> & Hline).
  nia.
Qed.

(** Phases 1 and 2 in sequence, from any block. *)
Lemma measured_run S L b m :
  geometry_ok S L -> heap m = Some b -> length b = Z.to_nat S ->
  (prime S L Block;; verify S L Block) m =
  inr (checksum_of L (num_cache_lines S L) (bumped L (num_cache_lines S L) b),
       {| heap := Some (bumped L (num_cache_lines S L) b); sink := sink m;
          trace := trace m ++ prime_events L (num_cache_lines S L) b
                     ++ verify_events L (num_cache_lines S L)
                          (bumped L (num_cache_lines S L) b) |}).
Proof.
  intros Hg Hb Hlen.
  erewrite bind_run; [| apply (prime_run S L b m Hg Hb Hlen)].
  rewrite (verify_run S L (bumped L (num_cache_lines S L) b));
    [| exact Hg | reflexivity | rewrite length_bumped; exact Hlen].
  simpl. rewrite <- app_assoc. reflexivity.
Qed.

Lemma num_cache_lines_div S L :
  geometry_ok S L -> num_cache_lines S L = S / L.
Proof.
  intros [HL [HS _]]. unfold num_cache_lines. apply Z.quot_div_nonneg; lia.
Qed.

Lemma is_line_start_elem L n (k : nat) :
  0 < L -> is_line_start L n k -> Z.of_nat k ∈ line_offsets L n.
Proof.
  intros HL [Hmod Hlt]. apply line_offsets_elem.
  apply Z.mod_divide in Hmod; [| lia]. destruct Hmod as [q Hq].
  exists q. split; [exact Hq |]. rewrite Hq in Hlt.
  apply Z.mul_lt_mono_pos_r in Hlt; [| lia]. nia.
Qed.

(** The events of the prime pass on the block the cold-touch pass leaves. *)
Lemma prime_events_cold S L :
  geometry_ok S L ->
  prime_events L (num_cache_lines S L) (cold_image S) =
  flat_map (fun line => [Load (line * L) (to_uint8 (line * L));
                         Store (line * L) (to_uint8 (to_uint8 (line * L) + 1))])
    (seqZ 0 (num_cache_lines S L)).
Proof.
  intros Hg. destruct (lines_fit S L Hg) as [Hn HnL]. destruct Hg as [HL _].
  unfold prime_events, line_offsets.
  assert (Forall (fun line => 0 <= line < num_cache_lines S L)
            (seqZ 0 (num_cache_lines S L))) as Hall
    by (apply Forall_forall; intros line Hl; apply elem_of_seqZ in Hl; lia).
  induction Hall as [| line ls Hline _ IH]; csimpl; [reflexivity |].
  rewrite IH. unfold rmw_events.
  rewrite byte_at_cold_image by nia. reflexivity.
Qed.

(** * The claims *)

(** C1 (fails on the code).  The claim wants a "reset statistics" signal
    between the cold-touch pass and the prime pass, and a "dump statistics"
    signal after the sink store.  [main] never calls [m5_reset_stats] or
    [m5_dump_stats]: whatever the allocator answers, the program runs to
    completion and its trace contains neither signal. *)
Theorem main_emits_no_stats_signal (os : allocator) :
  exists status m,
    run (main os) = inr (status, m) /\
    (ResetStats ∉ trace m) /\ (DumpStats ∉ trace m).
Proof.
  unfold main.
  destruct (os CACHE_SIZE_BYTES CACHE_SIZE_BYTES) as [contents |] eqn:Hos.
  - rewrite (main_at_granted _ _ _ _ compiled_geometry_ok Hos).
    eexists _, _. split; [reflexivity |]. simpl.
    pose proof (main_trace_no_signal CACHE_SIZE_BYTES CACHE_LINE_BYTES) as Hno.
    rewrite Forall_forall in Hno. unfold is_stats_signal in Hno.
    split; intros Hin; apply (Hno _ Hin); auto.
  - rewrite (main_at_refused _ _ _ Hos).
    eexists _, _. split; [reflexivity |]. simpl.
    split; intros Hin;
      repeat (apply elem_of_cons in Hin as [Hin | Hin]; [congruence |]);
      inversion Hin.
Qed.

(** C4.  When [aligned_alloc] fails, [main] writes the one line
    "aligned_alloc failed", newline included, to standard error and returns
    1; the trace holds nothing else, so the buffer is never touched, the
    sink is not written and nothing is freed.  When the allocation
    succeeds, [main] runs to completion and returns 0. *)
Theorem alloc_failure_exits_1 (os : allocator) :
  (os CACHE_SIZE_BYTES CACHE_SIZE_BYTES = None ->
   run (main os) =
   inr (1, {| heap := None; sink := 0;
              trace := [Alloc CACHE_SIZE_BYTES CACHE_SIZE_BYTES false;
                        Stderr ("aligned_alloc failed"
                                  +:+ String (Ascii.ascii_of_nat 10) EmptyString)] |})) /\
  (forall contents,
     os CACHE_SIZE_BYTES CACHE_SIZE_BYTES = Some contents ->
     exists m, run (main os) = inr (0, m) /\ heap m = None).
Proof.
  split.
  - apply main_at_refused.
  - intros contents Hos. unfold main.
    rewrite (main_at_granted _ _ _ _ compiled_geometry_ok Hos). eauto.
Qed.

Lemma alloc_failure_exits_1_witness :
  run (main exhausted) =
    inr (1, {| heap := None; sink := 0;
               trace := [Alloc CACHE_SIZE_BYTES CACHE_SIZE_BYTES false;
                         Stderr ("aligned_alloc failed"
                                   +:+ String (Ascii.ascii_of_nat 10) EmptyString)] |}) /\
  exists m, run (main generous) = inr (0, m) /\ heap m = None.
Proof.
  split.
  - apply (proj1 (alloc_failure_exits_1 exhausted)). reflexivity.
  - apply (proj2 (alloc_failure_exits_1 generous) (fun _ => 0)). reflexivity.
Defined.

(** C6.  The compiled geometry: the cache size is 16384 bytes, a multiple
    of the 64-byte line, and [NUM_CACHE_LINES], the quotient, is 256. *)
Theorem compiled_geometry :
  CACHE_SIZE_BYTES = 16384 /\ CACHE_LINE_BYTES = 64 /\
  CACHE_SIZE_BYTES mod CACHE_LINE_BYTES = 0 /\
  NUM_CACHE_LINES = CACHE_SIZE_BYTES / CACHE_LINE_BYTES /\
  NUM_CACHE_LINES = 256.
Proof. repeat split. Qed.

(** C5.  From a machine that holds a block of [S] bytes, the cold-touch
    pass stores to the offsets 0, 1, ..., S-1 in this order, one store per
    offset, the byte stored at offset [i] being [i mod 256]; afterwards the
    block holds [i mod 256] at every offset [i].  In a run of the program
    these stores come right after the allocation, before every access of
    the prime and verify passes. *)
Theorem cold_init_writes_every_byte_once S L (os : allocator) contents :
  geometry_ok S L -> os S S = Some contents ->
  (forall m b, heap m = Some b -> length b = Z.to_nat S ->
     cold_init S Block m =
     inr (tt, {| heap := Some ((fun i => i mod 256) <$> seqZ 0 S);
                 sink := sink m;
                 trace := trace m ++ ((fun i => Store i (i mod 256)) <$> seqZ 0 S) |})) /\
  exists m,
    run (main_at S L os) = inr (0, m) /\
    trace m =
      [Alloc S S true]
      ++ ((fun i => Store i (i mod 256)) <$> seqZ 0 S)
      ++ (prime_events L (num_cache_lines S L) (cold_image S)
          ++ verify_events L (num_cache_lines S L) (roi_block S L))
      ++ [SinkStore (sink m); Free].
Proof.
  intros Hg Hos. split.
  - intros m b Hb Hlen. destruct Hg as [_ [HS _]].
    apply (cold_init_run S b m HS Hb Hlen).
  - rewrite (main_at_granted _ _ _ _ Hg Hos). eexists. split; [reflexivity |].
    simpl. unfold main_trace. rewrite <- !app_assoc. reflexivity.
Qed.

Lemma cold_init_writes_every_byte_once_witness :
  (forall m b, heap m = Some b -> length b = Z.to_nat CACHE_SIZE_BYTES ->
     cold_init CACHE_SIZE_BYTES Block m =
     inr (tt, {| heap := Some ((fun i => i mod 256) <$> seqZ 0 CACHE_SIZE_BYTES);
                 sink := sink m;
                 trace := trace m ++
                   ((fun i => Store i (i mod 256)) <$> seqZ 0 CACHE_SIZE_BYTES) |})) /\
  exists m,
    run (main_at CACHE_SIZE_BYTES CACHE_LINE_BYTES generous) = inr (0, m) /\
    trace m =
      [Alloc CACHE_SIZE_BYTES CACHE_SIZE_BYTES true]
      ++ ((fun i => Store i (i mod 256)) <$> seqZ 0 CACHE_SIZE_BYTES)
      ++ (prime_events CACHE_LINE_BYTES
            (num_cache_lines CACHE_SIZE_BYTES CACHE_LINE_BYTES)
            (cold_image CACHE_SIZE_BYTES)
          ++ verify_events CACHE_LINE_BYTES
            (num_cache_lines CACHE_SIZE_BYTES CACHE_LINE_BYTES)
            (roi_block CACHE_SIZE_BYTES CACHE_LINE_BYTES))
      ++ [SinkStore (sink m); Free].
Proof.
  apply (cold_init_writes_every_byte_once
           CACHE_SIZE_BYTES CACHE_LINE_BYTES generous (fun _ => 0)).
  - unfold geometry_ok, CACHE_SIZE_BYTES, CACHE_LINE_BYTES, INT_MAX. lia.
  - reflexivity.
Defined.

(** C3.  From a machine that holds a block [b] of [S] bytes, the prime pass
    performs one read-modify-write per cache line and nothing else: for
    line = 0, 1, ..., S/L - 1 in this order it loads the byte the block
    holds at [line * L] and stores that byte plus one, truncated to a
    byte, back to the same offset.  The block it leaves has the length of
    [b], holds the incremented byte at each of these offsets and the byte
    of [b] everywhere else.  There are exactly S/L offsets, the j-th being
    [j * L], and no offset occurs twice. *)
Theorem prime_touches_each_line_once S L m b :
  geometry_ok S L -> heap m = Some b -> length b = Z.to_nat S ->
  let offsets := (fun line => line * L) <$> seqZ 0 (S / L) in
  (exists m' b',
     prime S L Block m = inr (tt, m') /\
     trace m' =
       trace m ++
       flat_map (fun off => [Load off (byte_at b off);
                             Store off (to_uint8 (byte_at b off + 1))]) offsets /\
     heap m' = Some b' /\ length b' = length b /\
     (forall off, off ∈ offsets ->
        b !! Z.to_nat off = Some (byte_at b off) /\
        b' !! Z.to_nat off = Some (to_uint8 (byte_at b off + 1))) /\
     (forall k : nat, Z.of_nat k ∉ offsets -> b' !! k = b !! k)) /\
  length offsets = Z.to_nat (S / L) /\
  (forall j : nat, Z.of_nat j < S / L ->
     offsets !! j = Some (Z.of_nat j * L)) /\
  NoDup offsets.
Proof.
  intros Hg Hb Hlen offsets.
  pose proof (num_cache_lines_div S L Hg) as Hn.
  destruct (lines_fit S L Hg) as [Hn0 HnL]. pose proof Hg as [HL [HS _]].
  assert (offsets = line_offsets L (num_cache_lines S L)) as Hoffs
    by (unfold offsets, line_offsets; rewrite Hn; reflexivity).
  clearbody offsets. subst offsets. rewrite <- Hn.
  split; [| split; [| split]].
  - rewrite (prime_run S L b m Hg Hb Hlen). eexists _, _.
    split; [reflexivity |]. split; [reflexivity |].
    split; [reflexivity |]. split; [apply length_bumped |]. split.
    + intros off Hoff. apply line_offsets_elem in Hoff as (line & -> & Hline).
      destruct (lookup_lt_is_Some_2 b (Z.to_nat (line * L))) as [v Hv]; [nia |].
      rewrite (bumped_lookup_line L _ b line HL Hline). unfold byte_at.
      rewrite Hv. split; reflexivity.
    + intros k Hk. rewrite bumped_lookup.
      destruct (b !! k) as [v |]; [| reflexivity]. simpl.
      rewrite decide_False; [reflexivity |].
      intros Hstart. apply Hk, (is_line_start_elem L _ k HL Hstart).
  - apply length_line_offsets.
  - intros j Hj. apply line_offsets_lookup. exact Hj.
  - apply NoDup_line_offsets. exact HL.
Qed.

Lemma prime_touches_each_line_once_witness :
  let b := fresh_block (fun _ => 0) 16384 in
  let offsets := (fun line => line * 64) <$> seqZ 0 256 in
  (exists m' b',
     prime 16384 64 Block after_alloc = inr (tt, m') /\
     trace m' =
       trace after_alloc ++
       flat_map (fun off => [Load off (byte_at b off);
                             Store off (to_uint8 (byte_at b off + 1))]) offsets /\
     heap m' = Some b' /\ length b' = length b /\
     (forall off, off ∈ offsets ->
        b !! Z.to_nat off = Some (byte_at b off) /\
        b' !! Z.to_nat off = Some (to_uint8 (byte_at b off + 1))) /\
     (forall k : nat, Z.of_nat k ∉ offsets -> b' !! k = b !! k)) /\
  length offsets = 256%nat /\
  (forall j : nat, Z.of_nat j < 256 -> offsets !! j = Some (Z.of_nat j * 64)) /\
  NoDup offsets.
Proof.
  apply (prime_touches_each_line_once 16384 64
           after_alloc (fresh_block (fun _ => 0) 16384)).
  - unfold geometry_ok, INT_MAX. lia.
  - reflexivity.
  - vm_compute. reflexivity.
Defined.

(** C7.  On a machine that holds a block [b] of [S] bytes, the verify pass
    returns a checksum and leaves the block as it was; run again right
    away it returns the same checksum, and the block is still [b]. *)
Theorem verify_twice_same_checksum S L m b :
  geometry_ok S L -> heap m = Some b -> length b = Z.to_nat S ->
  exists c m1 m2,
    verify S L Block m = inr (c, m1) /\ heap m1 = Some b /\
    verify S L Block m1 = inr (c, m2) /\ heap m2 = Some b /\
    (c1 ← verify S L Block; c2 ← verify S L Block; mret (c1, c2)) m =
      inr ((c, c), m2).
Proof.
  intros Hg Hb Hlen.
  pose proof (verify_run S L b m Hg Hb Hlen) as H1.
  set (m1 := {| heap := Some b; sink := sink m;
                trace := trace m ++ verify_events L (num_cache_lines S L) b |}) in *.
  pose proof (verify_run S L b m1 Hg eq_refl Hlen) as H2.
  eexists _, m1, _. split; [exact H1 |]. split; [reflexivity |].
  split; [exact H2 |]. split; [reflexivity |].
  rewrite (bind_run _ _ _ _ _ H1). rewrite (bind_run _ _ _ _ _ H2). reflexivity.
Qed.

Lemma verify_twice_same_checksum_witness :
  exists c m1 m2,
    verify CACHE_SIZE_BYTES CACHE_LINE_BYTES Block after_alloc = inr (c, m1) /\
    heap m1 = Some (fresh_block (fun _ => 0) CACHE_SIZE_BYTES) /\
    verify CACHE_SIZE_BYTES CACHE_LINE_BYTES Block m1 = inr (c, m2) /\
    heap m2 = Some (fresh_block (fun _ => 0) CACHE_SIZE_BYTES) /\
    (c1 ← verify CACHE_SIZE_BYTES CACHE_LINE_BYTES Block;
     c2 ← verify CACHE_SIZE_BYTES CACHE_LINE_BYTES Block; mret (c1, c2))
      after_alloc = inr ((c, c), m2).
Proof.
  apply (verify_twice_same_checksum CACHE_SIZE_BYTES CACHE_LINE_BYTES
           after_alloc (fresh_block (fun _ => 0) CACHE_SIZE_BYTES)).
  - unfold geometry_ok, CACHE_SIZE_BYTES, CACHE_LINE_BYTES, INT_MAX. lia.
  - reflexivity.
  - vm_compute. reflexivity.
Defined.

(** C8.  No access of the program leaves the buffer.  Whatever the
    allocator answers, [main] ends without a fault, and every load and every
    store in its trace is at an offset [off] with [0 <= off < S]; in
    particular each line offset [line * L] with [0 <= line < lineCount] is
    below [S]. *)
Theorem all_accesses_in_bounds S L (os : allocator) :
  geometry_ok S L ->
  (exists status m,
     run (main_at S L os) = inr (status, m) /\
     Forall (fun e => forall off, access_offset e = Some off -> 0 <= off < S)
       (trace m)) /\
  (forall i, i ∈ seqZ 0 S -> 0 <= i < S) /\
  (forall line, 0 <= line < num_cache_lines S L -> 0 <= line * L < S).
Proof.
  intros Hg. split; [| split].
  - destruct (os S S) as [contents |] eqn:Hos.
    + rewrite (main_at_granted _ _ _ _ Hg Hos). eexists _, _.
      split; [reflexivity |]. apply (main_trace_in_bounds S L Hg).
    + rewrite (main_at_refused _ _ _ Hos). eexists _, _.
      split; [reflexivity |]. simpl.
      repeat (constructor; [intros off; simpl; congruence |]). constructor.
  - intros i Hi. apply elem_of_seqZ in Hi. lia.
  - intros line Hline. apply (line_offsets_bound S L (line * L) Hg).
    unfold line_offsets. apply list_elem_of_fmap. exists line.
    split; [reflexivity |]. apply elem_of_seqZ. lia.
Qed.

Lemma all_accesses_in_bounds_witness :
  (exists status m,
     run (main generous) = inr (status, m) /\
     Forall (fun e => forall off, access_offset e = Some off ->
                                  0 <= off < CACHE_SIZE_BYTES)
       (trace m)) /\
  (forall i, i ∈ seqZ 0 CACHE_SIZE_BYTES -> 0 <= i < CACHE_SIZE_BYTES) /\
  (forall line, 0 <= line < NUM_CACHE_LINES ->
                0 <= line * CACHE_LINE_BYTES < CACHE_SIZE_BYTES).
Proof.
  apply (all_accesses_in_bounds CACHE_SIZE_BYTES CACHE_LINE_BYTES generous).
  unfold geometry_ok, CACHE_SIZE_BYTES, CACHE_LINE_BYTES, INT_MAX. lia.
Defined.

(** C9.  The prime pass changes no byte whose offset is not a multiple of
    the line size: from any block [b] of [S] bytes it ends with a block of
    the same length that agrees with [b] at every such offset.  Run after
    the cold-touch pass, it therefore leaves [k mod 256] at every offset
    [k] that is not a multiple of the line size. *)
Theorem prime_leaves_other_bytes S L m b :
  geometry_ok S L -> heap m = Some b -> length b = Z.to_nat S ->
  (exists m' b',
     prime S L Block m = inr (tt, m') /\ heap m' = Some b' /\
     length b' = length b /\
     forall k, 0 <= k < S -> k mod L <> 0 ->
       b' !! Z.to_nat k = b !! Z.to_nat k) /\
  (exists m' b',
     (cold_init S Block;; prime S L Block) m = inr (tt, m') /\
     heap m' = Some b' /\
     forall k, 0 <= k < S -> k mod L <> 0 ->
       b' !! Z.to_nat k = Some (k mod 256)).
Proof.
  intros Hg Hb Hlen. pose proof Hg as [HL [HS HSmax]]. split.
  - rewrite (prime_run S L b m Hg Hb Hlen). eexists _, _.
    split; [reflexivity |]. split; [reflexivity |].
    split; [apply length_bumped |].
    intros k Hk Hmod. apply bumped_lookup_between.
    rewrite Z2Nat.id by lia. exact Hmod.
  - erewrite bind_run; [| apply (cold_init_run S b); assumption].
    rewrite (prime_run S L (cold_image S));
      [| exact Hg | reflexivity | apply length_cold_image].
    eexists _, _. split; [reflexivity |]. split; [reflexivity |].
    intros k Hk Hmod. rewrite bumped_lookup_between
      by (rewrite Z2Nat.id by lia; exact Hmod).
    rewrite cold_image_lookup by lia. rewrite Z2Nat.id by lia. reflexivity.
Qed.

Lemma prime_leaves_other_bytes_witness :
  (exists m' b',
     prime CACHE_SIZE_BYTES CACHE_LINE_BYTES Block after_alloc = inr (tt, m') /\
     heap m' = Some b' /\
     length b' = length (fresh_block (fun _ => 0) CACHE_SIZE_BYTES) /\
     forall k, 0 <= k < CACHE_SIZE_BYTES -> k mod CACHE_LINE_BYTES <> 0 ->
       b' !! Z.to_nat k =
       fresh_block (fun _ => 0) CACHE_SIZE_BYTES !! Z.to_nat k) /\
  (exists m' b',
     (cold_init CACHE_SIZE_BYTES Block;;
      prime CACHE_SIZE_BYTES CACHE_LINE_BYTES Block) after_alloc = inr (tt, m') /\
     heap m' = Some b' /\
     forall k, 0 <= k < CACHE_SIZE_BYTES -> k mod CACHE_LINE_BYTES <> 0 ->
       b' !! Z.to_nat k = Some (k mod 256)).
Proof.
  apply (prime_leaves_other_bytes CACHE_SIZE_BYTES CACHE_LINE_BYTES
           after_alloc (fresh_block (fun _ => 0) CACHE_SIZE_BYTES)).
  - unfold geometry_ok, CACHE_SIZE_BYTES, CACHE_LINE_BYTES, INT_MAX. lia.
  - reflexivity.
  - vm_compute. reflexivity.
Defined.

(** C2.  For the compiled geometry (16384-byte cache, 64-byte lines, 256
    lines): run the cold-touch pass, one prime pass and the verify pass on
    a machine that holds the block.  The verify pass then loads the byte at
    [line * 64] for line = 0, ..., 255 in this order, the byte loaded is
    [((line * 64) mod 256) + 1] truncated to a byte, and the checksum it
    returns is the plain sum of these 256 bytes. *)
Theorem verify_reads_primed_lines m b :
  heap m = Some b -> length b = Z.to_nat CACHE_SIZE_BYTES ->
  let byte := fun line => to_uint8 ((line * 64) mod 256 + 1) in
  exists m',
    (cold_init CACHE_SIZE_BYTES Block;;
     prime CACHE_SIZE_BYTES CACHE_LINE_BYTES Block;;
     verify CACHE_SIZE_BYTES CACHE_LINE_BYTES Block) m =
      inr (foldr Z.add 0 (byte <$> seqZ 0 256), m') /\
    trace m' =
      trace m ++ cold_events CACHE_SIZE_BYTES
        ++ prime_events CACHE_LINE_BYTES NUM_CACHE_LINES
             (cold_image CACHE_SIZE_BYTES)
        ++ ((fun line => Load (line * 64) (byte line)) <$> seqZ 0 256).
Proof.
  intros Hb Hlen byte.
  rewrite (roi_run _ _ b m compiled_geometry_ok Hb Hlen).
  rewrite compiled_final_checksum.
  rewrite (roi_verify_events _ _ compiled_geometry_ok).
  eexists. split; reflexivity.
Qed.

Lemma verify_reads_primed_lines_witness :
  let byte := fun line => to_uint8 ((line * 64) mod 256 + 1) in
  exists m',
    (cold_init CACHE_SIZE_BYTES Block;;
     prime CACHE_SIZE_BYTES CACHE_LINE_BYTES Block;;
     verify CACHE_SIZE_BYTES CACHE_LINE_BYTES Block) after_alloc =
      inr (foldr Z.add 0 (byte <$> seqZ 0 256), m') /\
    trace m' =
      trace after_alloc ++ cold_events CACHE_SIZE_BYTES
        ++ prime_events CACHE_LINE_BYTES NUM_CACHE_LINES
             (cold_image CACHE_SIZE_BYTES)
        ++ ((fun line => Load (line * 64) (byte line)) <$> seqZ 0 256).
Proof.
  apply (verify_reads_primed_lines after_alloc
           (fresh_block (fun _ => 0) CACHE_SIZE_BYTES)).
  - reflexivity.
  - vm_compute. reflexivity.
Defined.

(** C10.  For the compiled geometry and a successful allocation, [main]
    stores every byte, increments the first byte of each of the 256 lines,
    and then loads these 256 bytes, the byte of line [line] being
    [((line * 64) mod 256) + 1].  The checksum is their sum, 24832: the
    64-bit accumulator reaches it without wrapping, and the verify pass
    returns it.  [main] stores the checksum truncated to a byte, which is
    0, into the sink, frees the block and returns 0. *)
Theorem checksum_is_24832 (os : allocator) contents :
  os CACHE_SIZE_BYTES CACHE_SIZE_BYTES = Some contents ->
  let byte := fun line => to_uint8 ((line * 64) mod 256 + 1) in
  let checksum := foldr Z.add 0 (byte <$> seqZ 0 256) in
  run (main os) =
    inr (0, {| heap := None; sink := to_uint8 checksum;
               trace :=
                 [Alloc 16384 16384 true]
                 ++ ((fun i => Store i (i mod 256)) <$> seqZ 0 16384)
                 ++ flat_map (fun line => [Load (line * 64) ((line * 64) mod 256);
                                           Store (line * 64) (byte line)])
                      (seqZ 0 256)
                 ++ ((fun line => Load (line * 64) (byte line)) <$> seqZ 0 256)
                 ++ [SinkStore (to_uint8 checksum); Free] |}) /\
  (exists m,
     (buf ← aligned_alloc os CACHE_SIZE_BYTES CACHE_SIZE_BYTES;
      cold_init CACHE_SIZE_BYTES buf;;
      prime CACHE_SIZE_BYTES CACHE_LINE_BYTES buf;;
      verify CACHE_SIZE_BYTES CACHE_LINE_BYTES buf) boot = inr (checksum, m)) /\
  foldl (fun acc v => to_uint64 (acc + v)) 0 (byte <$> seqZ 0 256) = checksum /\
  checksum = 24832 /\
  checksum < 2 ^ 64 /\
  to_uint8 checksum = 0.
Proof.
  intros Hos byte checksum.
  assert (checksum = 24832) as Hsum by (vm_compute; reflexivity).
  split; [| split; [| split; [| split; [| split]]]].
  - unfold main. rewrite (main_at_granted _ _ _ _ compiled_geometry_ok Hos).
    unfold main_trace.
    rewrite (prime_events_cold _ _ compiled_geometry_ok).
    rewrite (roi_verify_events _ _ compiled_geometry_ok).
    rewrite compiled_final_checksum, Hsum. reflexivity.
  - unfold aligned_alloc. unfold mbind at 1. unfold M_bind at 1. rewrite Hos.
    erewrite roi_run;
      [| exact compiled_geometry_ok | reflexivity | apply length_fresh_block].
    rewrite compiled_final_checksum, Hsum. eexists. reflexivity.
  - vm_compute. reflexivity.
  - exact Hsum.
  - rewrite Hsum. reflexivity.
  - rewrite Hsum. reflexivity.
Qed.

Lemma checksum_is_24832_witness :
  let byte := fun line => to_uint8 ((line * 64) mod 256 + 1) in
  let checksum := foldr Z.add 0 (byte <$> seqZ 0 256) in
  run (main generous) =
    inr (0, {| heap := None; sink := to_uint8 checksum;
               trace :=
                 [Alloc 16384 16384 true]
                 ++ ((fun i => Store i (i mod 256)) <$> seqZ 0 16384)
                 ++ flat_map (fun line => [Load (line * 64) ((line * 64) mod 256);
                                           Store (line * 64) (byte line)])
                      (seqZ 0 256)
                 ++ ((fun line => Load (line * 64) (byte line)) <$> seqZ 0 256)
                 ++ [SinkStore (to_uint8 checksum); Free] |}) /\
  (exists m,
     (buf ← aligned_alloc generous CACHE_SIZE_BYTES CACHE_SIZE_BYTES;
      cold_init CACHE_SIZE_BYTES buf;;
      prime CACHE_SIZE_BYTES CACHE_LINE_BYTES buf;;
      verify CACHE_SIZE_BYTES CACHE_LINE_BYTES buf) boot = inr (checksum, m)) /\
  foldl (fun acc v => to_uint64 (acc + v)) 0 (byte <$> seqZ 0 256) = checksum /\
  checksum = 24832 /\
  checksum < 2 ^ 64 /\
  to_uint8 checksum = 0.
Proof.
  apply (checksum_is_24832 generous (fun _ => 0)). reflexivity.
Defined.

(** * Further properties of the code *)

(** ** The properties *)

(** X1.  The run does not depend on what the fresh block happens to hold:
    two allocators that both grant the request, with whatever leftover
    contents, give the same exit status, the same sink and the same trace.
    The cold-touch pass writes every byte before anything reads one. *)
Theorem run_ignores_fresh_contents S L (os1 os2 : allocator) c1 c2 :
  geometry_ok S L -> os1 S S = Some c1 -> os2 S S = Some c2 ->
  run (main_at S L os1) = run (main_at S L os2).
Proof.
  intros Hg H1 H2.
  rewrite (main_at_granted _ _ _ _ Hg H1), (main_at_granted _ _ _ _ Hg H2).
  reflexivity.
Qed.

Lemma run_ignores_fresh_contents_witness :
  run (main_at CACHE_SIZE_BYTES CACHE_LINE_BYTES generous) =
  run (main_at CACHE_SIZE_BYTES CACHE_LINE_BYTES scribbled).
Proof.
  apply (run_ignores_fresh_contents CACHE_SIZE_BYTES CACHE_LINE_BYTES
           generous scribbled (fun _ => 0) (fun k => Z.of_nat k + 7)).
  - unfold geometry_ok, CACHE_SIZE_BYTES, CACHE_LINE_BYTES, INT_MAX. lia.
  - reflexivity.
  - reflexivity.
Defined.

(** X2.  When the line size does not divide the cache size, the bytes past
    the last full line are left alone.  [NUM_CACHE_LINES] is the truncated
    quotient, so fewer than [L] bytes remain after [lineCount * L]; the
    prime and verify passes access no offset from [lineCount * L] on, and
    those bytes are after the two passes what they were before. *)
Theorem partial_line_untouched S L m b :
  geometry_ok S L -> heap m = Some b -> length b = Z.to_nat S ->
  let n := num_cache_lines S L in
  n * L <= S < n * L + L /\
  exists c m' b' evs,
    (prime S L Block;; verify S L Block) m = inr (c, m') /\
    heap m' = Some b' /\
    trace m' = trace m ++ evs /\
    Forall (fun e => forall off, access_offset e = Some off -> 0 <= off < n * L)
      evs /\
    forall k, n * L <= k < S -> b' !! Z.to_nat k = b !! Z.to_nat k.
Proof.
  intros Hg Hb Hlen n. split.
  - split; [apply (lines_fit S L Hg) | apply (lines_tail S L Hg)].
  - rewrite (measured_run S L b m Hg Hb Hlen). fold n.
    destruct (lines_fit S L Hg) as [Hn _]. destruct Hg as [HL _].
    eexists _, _, _, _. split; [reflexivity |]. split; [reflexivity |].
    split; [reflexivity |]. split.
    + apply Forall_app_2;
        [apply prime_events_offsets | apply verify_events_offsets]; exact HL.
    + intros k Hk. apply bumped_lookup_beyond. fold n in Hn. nia.
Qed.

Lemma partial_line_untouched_witness :
  let n := num_cache_lines 10 4 in
  n * 4 <= 10 < n * 4 + 4 /\
  exists c m' b' evs,
    (prime 10 4 Block;; verify 10 4 Block) ragged = inr (c, m') /\
    heap m' = Some b' /\
    trace m' = trace ragged ++ evs /\
    Forall (fun e => forall off, access_offset e = Some off -> 0 <= off < n * 4)
      evs /\
    forall k, n * 4 <= k < 10 ->
      b' !! Z.to_nat k = fresh_block (fun _ => 0) 10 !! Z.to_nat k.
Proof.
  apply (partial_line_untouched 10 4 ragged (fresh_block (fun _ => 0) 10)).
  - unfold geometry_ok, INT_MAX. lia.
  - reflexivity.
  - reflexivity.
Defined.

Lemma byte_at_is_byte b off :
  all_bytes b = true -> 0 <= byte_at b off <= 255.
Proof.
  intros Hall. unfold byte_at.
  destruct (b !! Z.to_nat off) as [v |] eqn:Hv; simpl; [| lia].
  unfold all_bytes in Hall. rewrite forallb_forall in Hall.
  apply list_elem_of_lookup_2, list_elem_of_In, Hall in Hv.
  unfold is_byte in Hv. apply andb_true_iff in Hv as [H0 H1].
  apply Z.leb_le in H0. apply Z.ltb_lt in H1. lia.
Qed.

(** Adding bytes into a 64-bit accumulator that has room for them. *)
Lemma foldl_no_wrap vs :
  Forall (fun v => 0 <= v <= 255) vs ->
  forall acc, 0 <= acc -> acc + 255 * Z.of_nat (length vs) < 2 ^ 64 ->
    foldl (fun a v => to_uint64 (a + v)) acc vs = acc + foldr Z.add 0 vs /\
    0 <= foldr Z.add 0 vs <= 255 * Z.of_nat (length vs).
Proof.
  induction 1 as [| v vs Hv Hvs IH]; intros acc Hacc Hroom; simpl in *.
  - lia.
  - assert (to_uint64 (acc + v) = acc + v) as ->
      by (unfold to_uint64; apply Z.mod_small; lia).
    destruct (IH (acc + v)) as [Hfold Hsum]; lia.
Qed.

(** X3.  The checksum never wraps.  On a block of bytes the verify pass
    returns the exact sum of the first bytes of the lines: the sum is at
    most [255 * lineCount], and [lineCount] is at most [INT_MAX], so the
    64-bit accumulator always has room. *)
Theorem checksum_never_wraps S L m b :
  geometry_ok S L -> heap m = Some b -> length b = Z.to_nat S ->
  all_bytes b = true ->
  let n := num_cache_lines S L in
  let total := foldr Z.add 0 (byte_at b <$> line_offsets L n) in
  (exists m', verify S L Block m = inr (total, m')) /\
  0 <= total <= 255 * n /\ 255 * n < 2 ^ 64.
Proof.
  intros Hg Hb Hlen Hall n total.
  destruct (lines_fit S L Hg) as [Hn HnL]. fold n in Hn, HnL.
  pose proof Hg as [HL [HS HSmax]].
  assert (255 * n < 2 ^ 64) as Hroom by (unfold INT_MAX in HSmax; nia).
  destruct (foldl_no_wrap (byte_at b <$> line_offsets L n)) with (acc := 0)
    as [Hfold Hsum].
  - apply Forall_fmap, Forall_true. intros off. apply byte_at_is_byte, Hall.
  - lia.
  - rewrite length_fmap, length_line_offsets. lia.
  - rewrite length_fmap, length_line_offsets in Hsum.
    split; [| split; [lia | exact Hroom]].
    rewrite (verify_run S L b m Hg Hb Hlen). fold n.
    rewrite checksum_of_bytes, Hfold. eexists. reflexivity.
Qed.

Lemma checksum_never_wraps_witness :
  let n := NUM_CACHE_LINES in
  let total :=
    foldr Z.add 0
      (byte_at (fresh_block (fun _ => 0) CACHE_SIZE_BYTES)
         <$> line_offsets CACHE_LINE_BYTES n) in
  (exists m',
     verify CACHE_SIZE_BYTES CACHE_LINE_BYTES Block after_alloc =
     inr (total, m')) /\
  0 <= total <= 255 * n /\ 255 * n < 2 ^ 64.
Proof.
  apply (checksum_never_wraps CACHE_SIZE_BYTES CACHE_LINE_BYTES
           after_alloc (fresh_block (fun _ => 0) CACHE_SIZE_BYTES)).
  - unfold geometry_ok, CACHE_SIZE_BYTES, CACHE_LINE_BYTES, INT_MAX. lia.
  - reflexivity.
  - vm_compute. reflexivity.
  - vm_compute. reflexivity.
Defined.

Lemma stored_prime_events L n b :
  omap stored (prime_events L n b) =
  (fun off => (off, to_uint8 (byte_at b off + 1))) <$> line_offsets L n.
Proof.
  unfold prime_events. induction (line_offsets L n) as [| off offs IH];
    csimpl; [reflexivity | rewrite IH; reflexivity].
Qed.

Lemma loaded_verify_events L n b :
  omap loaded (verify_events L n b) =
  (fun off => (off, byte_at b off)) <$> line_offsets L n.
Proof.
  unfold verify_events. induction (line_offsets L n) as [| off offs IH];
    csimpl; [reflexivity | rewrite IH; reflexivity].
Qed.

Lemma stored_verify_events L n b : omap stored (verify_events L n b) = [].
Proof.
  unfold verify_events. induction (line_offsets L n) as [| off offs IH];
    csimpl; [reflexivity | exact IH].
Qed.

Lemma byte_at_bumped_line L n b off :
  0 < L -> off ∈ line_offsets L n -> off < Z.of_nat (length b) ->
  byte_at (bumped L n b) off = to_uint8 (byte_at b off + 1).
Proof.
  intros HL Hoff Hlen. apply line_offsets_elem in Hoff as (line & -> & Hline).
  unfold byte_at. rewrite (bumped_lookup_line L n b line HL Hline).
  destruct (lookup_lt_is_Some_2 b (Z.to_nat (line * L))) as [v Hv]; [nia |].
  rewrite Hv. reflexivity.
Qed.

(** X4.  The verify pass reads back exactly what the prime pass wrote: the
    pairs (offset, value) it loads are, in the same order, the pairs the
    prime pass stored, one per cache line, and the verify pass stores
    nothing. *)
Theorem verify_reads_what_prime_wrote S L m b :
  geometry_ok S L -> heap m = Some b -> length b = Z.to_nat S ->
  exists m1 c m2 pe ve,
    prime S L Block m = inr (tt, m1) /\ trace m1 = trace m ++ pe /\
    verify S L Block m1 = inr (c, m2) /\ trace m2 = trace m1 ++ ve /\
    omap loaded ve = omap stored pe /\
    fst <$> omap stored pe = line_offsets L (num_cache_lines S L) /\
    omap stored ve = [].
Proof.
  intros Hg Hb Hlen. set (n := num_cache_lines S L).
  pose proof (prime_run S L b m Hg Hb Hlen) as Hp. fold n in Hp.
  set (m1 := {| heap := Some (bumped L n b); sink := sink m;
                trace := trace m ++ prime_events L n b |}) in *.
  pose proof (verify_run S L (bumped L n b) m1 Hg eq_refl
                ltac:(rewrite length_bumped; exact Hlen)) as Hv. fold n in Hv.
  destruct (lines_fit S L Hg) as [Hn HnL]. fold n in Hn, HnL.
  destruct Hg as [HL _].
  eexists m1, _, _, (prime_events L n b), _.
  split; [exact Hp |]. split; [reflexivity |].
  split; [exact Hv |]. split; [reflexivity |]. split; [| split].
  - rewrite loaded_verify_events, stored_prime_events.
    apply list_fmap_ext. intros j off Hoff. f_equal.
    apply list_elem_of_lookup_2 in Hoff.
    apply byte_at_bumped_line; [exact HL | exact Hoff |].
    apply line_offsets_elem in Hoff as (line & -> & Hline). nia.
  - rewrite stored_prime_events, <- list_fmap_compose.
    apply list_fmap_id.
  - apply stored_verify_events.
Qed.

Lemma verify_reads_what_prime_wrote_witness :
  exists m1 c m2 pe ve,
    prime CACHE_SIZE_BYTES CACHE_LINE_BYTES Block after_alloc = inr (tt, m1) /\
    trace m1 = trace after_alloc ++ pe /\
    verify CACHE_SIZE_BYTES CACHE_LINE_BYTES Block m1 = inr (c, m2) /\
    trace m2 = trace m1 ++ ve /\
    omap loaded ve = omap stored pe /\
    fst <$> omap stored pe = line_offsets CACHE_LINE_BYTES NUM_CACHE_LINES /\
    omap stored ve = [].
Proof.
  apply (verify_reads_what_prime_wrote CACHE_SIZE_BYTES CACHE_LINE_BYTES
           after_alloc (fresh_block (fun _ => 0) CACHE_SIZE_BYTES)).
  - unfold geometry_ok, CACHE_SIZE_BYTES, CACHE_LINE_BYTES, INT_MAX. lia.
  - reflexivity.
  - vm_compute. reflexivity.
Defined.

Lemma phase_events_are_accesses S L :
  Forall (fun e => is_Some (access_offset e))
    (cold_events S
       ++ prime_events L (num_cache_lines S L) (cold_image S)
       ++ verify_events L (num_cache_lines S L) (roi_block S L)).
Proof.
  repeat apply Forall_app_2.
  - unfold cold_events. apply Forall_fmap, Forall_true. intros i. simpl. eauto.
  - unfold prime_events. apply Forall_flat_map, Forall_true. intros off.
    unfold rmw_events. repeat (constructor; [simpl; eauto |]). constructor.
  - unfold verify_events. apply Forall_fmap, Forall_true. intros off. simpl. eauto.
Qed.

(** X5.  [main] releases what it acquires.  It returns 0 exactly when the
    allocation was granted, and 1 otherwise.  A granted block is freed
    once, by the last event of the run, after every access to it, and no
    second allocation is made; a refused allocation is never freed.
    Either way no block is live when [main] returns. *)
Theorem main_frees_exactly_once S L (os : allocator) :
  geometry_ok S L ->
  exists status m,
    run (main_at S L os) = inr (status, m) /\ heap m = None /\
    (status = 0 /\ is_Some (os S S) \/ status = 1 /\ os S S = None) /\
    (is_Some (os S S) ->
       exists evs,
         trace m = [Alloc S S true] ++ evs ++ [Free] /\
         Forall (fun e => e <> Free /\ forall a s ok, e <> Alloc a s ok) evs) /\
    (os S S = None -> Forall (fun e => e <> Free) (trace m)).
Proof.
  intros Hg. destruct (os S S) as [contents |] eqn:Hos.
  - rewrite (main_at_granted _ _ _ _ Hg Hos). eexists _, _.
    split; [reflexivity |]. split; [reflexivity |].
    split; [left; eauto |]. split; [| discriminate].
    intros _. simpl.
    exists ((cold_events S
               ++ prime_events L (num_cache_lines S L) (cold_image S)
               ++ verify_events L (num_cache_lines S L) (roi_block S L))
            ++ [SinkStore (to_uint8 (final_checksum S L))]).
    split.
    + unfold main_trace. rewrite <- !app_assoc. reflexivity.
    + apply Forall_app_2.
      * eapply Forall_impl; [apply phase_events_are_accesses |].
        intros e [off Hoff]. split; [| intros a s ok]; intros ->; discriminate.
      * constructor; [| constructor]. split; [| intros a s ok]; congruence.
  - rewrite (main_at_refused _ _ _ Hos). eexists _, _.
    split; [reflexivity |]. split; [reflexivity |].
    split; [right; eauto |]. split; [intros [? ?]; discriminate |].
    intros _. simpl. repeat (constructor; [congruence |]). constructor.
Qed.

Lemma main_frees_exactly_once_witness :
  exists status m,
    run (main generous) = inr (status, m) /\ heap m = None /\
    (status = 0 /\ is_Some (generous CACHE_SIZE_BYTES CACHE_SIZE_BYTES) \/
     status = 1 /\ generous CACHE_SIZE_BYTES CACHE_SIZE_BYTES = None) /\
    (is_Some (generous CACHE_SIZE_BYTES CACHE_SIZE_BYTES) ->
       exists evs,
         trace m =
           [Alloc CACHE_SIZE_BYTES CACHE_SIZE_BYTES true] ++ evs ++ [Free] /\
         Forall (fun e => e <> Free /\ forall a s ok, e <> Alloc a s ok) evs) /\
    (generous CACHE_SIZE_BYTES CACHE_SIZE_BYTES = None ->
       Forall (fun e => e <> Free) (trace m)).
Proof.
  apply (main_frees_exactly_once CACHE_SIZE_BYTES CACHE_LINE_BYTES generous).
  unfold geometry_ok, CACHE_SIZE_BYTES, CACHE_LINE_BYTES, INT_MAX. lia.
Defined.

(** X6.  The prime pass adds one, modulo 256, to the first byte of every
    cache line: from any block [b] of [S] bytes the block it leaves holds
    [(v + 1) mod 256] at offset [line * L] where [b] held [v], for every
    line below [lineCount].  A byte of 255 wraps to 0. *)
Theorem prime_increments_line_starts S L m b :
  geometry_ok S L -> heap m = Some b -> length b = Z.to_nat S ->
  exists m' b',
    prime S L Block m = inr (tt, m') /\ heap m' = Some b' /\
    (forall line, 0 <= line < num_cache_lines S L ->
       exists v, b !! Z.to_nat (line * L) = Some v /\
                 b' !! Z.to_nat (line * L) = Some ((v + 1) mod 256)) /\
    (forall line, 0 <= line < num_cache_lines S L ->
       b !! Z.to_nat (line * L) = Some 255 ->
       b' !! Z.to_nat (line * L) = Some 0).
Proof.
  intros Hg Hb Hlen. rewrite (prime_run S L b m Hg Hb Hlen).
  destruct (lines_fit S L Hg) as [Hn HnL]. destruct Hg as [HL [HS _]].
  eexists _, _. split; [reflexivity |]. split; [reflexivity |]. split.
  - intros line Hline.
    destruct (lookup_lt_is_Some_2 b (Z.to_nat (line * L))) as [v Hv]; [nia |].
    exists v. split; [exact Hv |].
    rewrite (bumped_lookup_line L _ b line HL Hline), Hv. reflexivity.
  - intros line Hline Hv.
    rewrite (bumped_lookup_line L _ b line HL Hline), Hv. reflexivity.
Qed.

Lemma prime_increments_line_starts_witness :
  exists m' b',
    prime CACHE_SIZE_BYTES CACHE_LINE_BYTES Block brimful = inr (tt, m') /\
    heap m' = Some b' /\
    (forall line, 0 <= line < NUM_CACHE_LINES ->
       exists v,
         fresh_block (fun _ => 255) CACHE_SIZE_BYTES
           !! Z.to_nat (line * CACHE_LINE_BYTES) = Some v /\
         b' !! Z.to_nat (line * CACHE_LINE_BYTES) = Some ((v + 1) mod 256)) /\
    (forall line, 0 <= line < NUM_CACHE_LINES ->
       fresh_block (fun _ => 255) CACHE_SIZE_BYTES
         !! Z.to_nat (line * CACHE_LINE_BYTES) = Some 255 ->
       b' !! Z.to_nat (line * CACHE_LINE_BYTES) = Some 0).
Proof.
  apply (prime_increments_line_starts CACHE_SIZE_BYTES CACHE_LINE_BYTES
           brimful (fresh_block (fun _ => 255) CACHE_SIZE_BYTES)).
  - unfold geometry_ok, CACHE_SIZE_BYTES, CACHE_LINE_BYTES, INT_MAX. lia.
  - reflexivity.
  - vm_compute. reflexivity.
Defined.

(** X8.  When the line size divides the cache size, the prime pass reaches
    every cache line of the buffer: [lineCount * L] is the whole size, and
    for every offset [k] of the buffer the pass stores to the first byte,
    [(k / L) * L], of the line that [k] lies in. *)
Theorem prime_reaches_every_line S L m b :
  geometry_ok S L -> S mod L = 0 ->
  heap m = Some b -> length b = Z.to_nat S ->
  num_cache_lines S L * L = S /\
  exists m' evs,
    prime S L Block m = inr (tt, m') /\ trace m' = trace m ++ evs /\
    forall k, 0 <= k < S ->
      (k / L) * L <= k < (k / L) * L + L /\
      exists v, Store ((k / L) * L) v ∈ evs.
Proof.
  intros Hg Hdiv Hb Hlen. pose proof Hg as [HL [HS _]].
  assert (num_cache_lines S L * L = S) as Hfull.
  { unfold num_cache_lines. rewrite Z.quot_div_nonneg by lia.
    pose proof (Z.div_mod S L ltac:(lia)). lia. }
  split; [exact Hfull |].
  rewrite (prime_run S L b m Hg Hb Hlen). eexists _, _.
  split; [reflexivity |]. split; [reflexivity |].
  intros k Hk.
  pose proof (Z.div_mod k L ltac:(lia)) as Hdm.
  pose proof (Z.mod_pos_bound k L HL) as Hmod.
  split; [lia |].
  eexists. apply list_elem_of_In. unfold prime_events. apply in_flat_map.
  exists (k / L * L). split.
  - apply list_elem_of_In, line_offsets_elem. exists (k / L).
    split; [reflexivity |]. split; [apply Z.div_pos; lia |].
    apply Z.div_lt_upper_bound; [lia |]. rewrite Z.mul_comm, Hfull. lia.
  - unfold rmw_events. right. left. reflexivity.
Qed.

Lemma prime_reaches_every_line_witness :
  NUM_CACHE_LINES * CACHE_LINE_BYTES = CACHE_SIZE_BYTES /\
  exists m' evs,
    prime CACHE_SIZE_BYTES CACHE_LINE_BYTES Block after_alloc = inr (tt, m') /\
    trace m' = trace after_alloc ++ evs /\
    forall k, 0 <= k < CACHE_SIZE_BYTES ->
      (k / CACHE_LINE_BYTES) * CACHE_LINE_BYTES <= k
        < (k / CACHE_LINE_BYTES) * CACHE_LINE_BYTES + CACHE_LINE_BYTES /\
      exists v, Store ((k / CACHE_LINE_BYTES) * CACHE_LINE_BYTES) v ∈ evs.
Proof.
  apply (prime_reaches_every_line CACHE_SIZE_BYTES CACHE_LINE_BYTES
           after_alloc (fresh_block (fun _ => 0) CACHE_SIZE_BYTES)).
  - unfold geometry_ok, CACHE_SIZE_BYTES, CACHE_LINE_BYTES, INT_MAX. lia.
  - reflexivity.
  - reflexivity.
  - vm_compute. reflexivity.
Defined.

(** X9.  A line larger than the cache leaves nothing to measure: the line
    count is then 0, the prime and verify loops do not run, and after the
    cold-touch stores [main] goes straight to storing a checksum of 0 into
    the sink, frees the block and returns 0. *)
Theorem oversized_line_measures_nothing S L (os : allocator) contents :
  geometry_ok S L -> S < L -> os S S = Some contents ->
  num_cache_lines S L = 0 /\
  run (main_at S L os) =
  inr (0, {| heap := None; sink := 0;
             trace := [Alloc S S true] ++ cold_events S
                        ++ [SinkStore 0; Free] |}).
Proof.
  intros Hg Hlt Hos. pose proof Hg as [HL [HS _]].
  assert (num_cache_lines S L = 0) as Hn
    by (unfold num_cache_lines; apply Z.quot_small; lia).
  split; [exact Hn |].
  rewrite (main_at_granted _ _ _ _ Hg Hos).
  unfold main_trace, final_checksum. rewrite Hn. reflexivity.
Qed.

Lemma oversized_line_measures_nothing_witness :
  num_cache_lines 10 64 = 0 /\
  run (main_at 10 64 generous) =
  inr (0, {| heap := None; sink := 0;
             trace := [Alloc 10 10 true] ++ cold_events 10
                        ++ [SinkStore 0; Free] |}).
Proof.
  apply (oversized_line_measures_nothing 10 64 generous (fun _ => 0)).
  - unfold geometry_ok, INT_MAX. lia.
  - lia.
  - reflexivity.
Defined.
